(** * Credentials read from environment variables

    A shallow embedding of
    [qiskit/providers/ibmq/credentials/environ.py]: the table
    [VARIABLES_MAP] and the loader [read_credentials_from_environ], which
    reads the process environment through [os.getenv], collects the
    recognised variables into keyword arguments, builds a [Credentials]
    object from them and returns it in an [OrderedDict] under its
    [unique_id()].

    The process environment is explicit state.  Every call of [os.getenv]
    is logged, so that what the loader touches can be stated. *)

From stdpp Require Import gmap strings list fin_maps.

Open Scope string_scope.

(** ** Python values *)

(** What [os.getenv] returns: [None] or a [str]. *)
Abbreviation pyval := (option string).

(** Truth value of an [Optional[str]]: [None] and the empty string are
    false, every other string is true. *)
Definition truthy (v : pyval) : bool :=
  match v with
  | Some (String _ _) => true
  | Some EmptyString => false
  | None => false
  end.

(** Exceptions a call can raise. *)
Inductive exn : Set :=
  | TypeError.

(** ** The process and its environment *)

(** An observable action of the process. *)
Inductive Event : Set :=
  | EvGetenv (name : string).

(** [os_environ] is the content of [os.environ]; [trace] the actions
    performed so far, oldest first. *)
Record World : Type := mkWorld {
  os_environ : gmap string string;
  trace : list Event
}.

(** A computation: runs in a world, returns or raises, leaves a world. *)
Definition Py (A : Type) : Type := World → (exn + A) * World.

Definition ret {A} (a : A) : Py A := λ w, (inr a, w).

Definition bind {A B} (m : Py A) (k : A → Py B) : Py B :=
  λ w, match m w with
       | (inr a, w') => k a w'
       | (inl e, w') => (inl e, w')
       end.

#[global] Instance Py_ret : MRet Py := @ret.
#[global] Instance Py_bind : MBind Py := λ A B k m, bind m k.

(** Lifts a pure call that may raise. *)
Definition lift {A} (r : exn + A) : Py A := λ w, (r, w).

(** [os.getenv(name)]: [os.environ.get(name)], a read of the
    environment. *)
Definition os_getenv (name : string) : Py pyval :=
  λ w, (inr (os_environ w !! name),
        {| os_environ := os_environ w; trace := trace w ++ [EvGetenv name] |}).

(** [for x in items: s = body(x, s)]. *)
Fixpoint for_each {A S} (items : list A) (body : A → S → Py S) (s : S) : Py S :=
  match items with
  | [] => mret s
  | x :: rest => s' ← body x s; for_each rest body s'
  end.

(** ** The [Credentials] class, as the loader uses it

    [credentials.py] is imported by the loader: a constructor called with
    keyword arguments, which returns the object or raises, and the
    method [unique_id()].  The record is a passive bundle of parameters:
    neither of the two touches the process environment. *)
Class CredentialsAPI : Type := {
  credentials : Type;
  hub_group_project : Type;
  new : gmap string pyval → exn + credentials;
  unique_id : credentials → hub_group_project
}.

(** ** environ.py *)

(** Maps [ENV_VARIABLE_NAME] to credential parameter, in the order of the
    dictionary display. *)
Definition VARIABLES_MAP : list (string * string) :=
  [ ("QE_TOKEN", "token");
    ("QE_URL", "url");
    ("QE_WEBSOCKET_URL", "websocket_url");
    ("QE_HUB", "hub");
    ("QE_GROUP", "group");
    ("QE_PROJECT", "project") ].

Section Loader.
Context {C : CredentialsAPI}.

(** [os.getenv('QE_TOKEN') and os.getenv('QE_URL')], as a truth value:
    [and] evaluates its right operand only when the left one is true. *)
Definition token_and_url : Py bool :=
  tok ← os_getenv "QE_TOKEN";
  if truthy tok then url ← os_getenv "QE_URL"; mret (truthy url)
  else mret false.

(** The body of the loop over [VARIABLES_MAP.items()]. *)
Definition collect (item : string * string) (creds : gmap string pyval)
  : Py (gmap string pyval) :=
  let '(envar_name, credential_key) := item in
  v ← os_getenv envar_name;
  if truthy v then
    v' ← os_getenv envar_name;
    mret (<[credential_key := v']> creds)
  else mret creds.

(** The result is the [OrderedDict], as its list of items. *)
Definition read_credentials_from_environ
  : Py (list (hub_group_project * credentials)) :=
  ok ← token_and_url;
  if negb ok then mret []
  else
    kwargs ← for_each VARIABLES_MAP collect ∅;
    c ← lift (new kwargs);
    mret [(unique_id c, c)].
End Loader.

(** ** credentials.py *)

Module Credentials.

(** Modelled from the spec: the [Credentials] class of
    [credentials/credentials.py], which the loader imports and which is
    not part of the sources at hand.  The record holds a token and a
    base URL, both required, and the optional websocket URL, hub, group
    and project.  Every attribute is a Python value; an optional one
    that was not given is [None]. *)
Record Credentials : Set := mkCredentials {
  token : pyval;
  url : pyval;
  websocket_url : pyval;
  hub : pyval;
  group : pyval;
  project : pyval
}.

(** Modelled from the spec: the parameters of the constructor, one for
    each field of the record. *)
Definition parameters : gset string :=
  {[ "token"; "url"; "websocket_url"; "hub"; "group"; "project" ]}.

(** Modelled from the spec: an optional parameter; when it is not given
    the field is [None], no other default is put in its place. *)
Definition optional (kwargs : gmap string pyval) (name : string) : pyval :=
  default None (kwargs !! name).

(** Modelled from the spec: the constructor, called with keyword
    arguments.  As for any Python callable, a keyword that is not a
    parameter and a required parameter that is not given are a
    [TypeError]; no value is validated. *)
Definition init (kwargs : gmap string pyval) : exn + Credentials :=
  if bool_decide (dom kwargs ⊆ parameters) then
    match kwargs !! "token", kwargs !! "url" with
    | Some t, Some u =>
        inr {| token := t;
               url := u;
               websocket_url := optional kwargs "websocket_url";
               hub := optional kwargs "hub";
               group := optional kwargs "group";
               project := optional kwargs "project" |}
    | _, _ => inl TypeError
    end
  else inl TypeError.

(** Modelled from the spec: the uniqueness key is derived from the
    hub/group/project triple; a component that is absent is its
    default, [None]. *)
Definition HubGroupProject : Set := (pyval * pyval * pyval)%type.

(** Modelled from the spec: the method [unique_id()], the triple of the
    record's hub, group and project. *)
Definition unique_id (c : Credentials) : HubGroupProject :=
  (hub c, group c, project c).

#[global] Instance api : CredentialsAPI :=
  Build_CredentialsAPI Credentials HubGroupProject init unique_id.

End Credentials.

(** * Vocabulary of the statements

    The keyword arguments and the reads of a run, as functions of the
    environment alone; the loader is shown below to compute them. *)

(** More calls in the log; the environment is not touched. *)
Definition logged (evs : list Event) (w : World) : World :=
  {| os_environ := os_environ w; trace := trace w ++ evs |}.

(** The calls of [os.getenv] one iteration makes for a variable. *)
Definition reads_of (env : gmap string string) (name : string) : list Event :=
  if truthy (env !! name) then [EvGetenv name; EvGetenv name]
  else [EvGetenv name].

(** The effect of one iteration on the keyword arguments. *)
Definition selected (env : gmap string string) (kw : gmap string pyval)
    (item : string * string) : gmap string pyval :=
  if truthy (env !! item.1) then <[item.2 := env !! item.1]> kw else kw.

Definition keyword_arguments (env : gmap string string) : gmap string pyval :=
  foldl (selected env) ∅ VARIABLES_MAP.

(** The guard of the loader, on the environment. *)
Definition configured (env : gmap string string) : bool :=
  truthy (env !! "QE_TOKEN") && truthy (env !! "QE_URL").

Definition guard_reads (env : gmap string string) : list Event :=
  if truthy (env !! "QE_TOKEN") then [EvGetenv "QE_TOKEN"; EvGetenv "QE_URL"]
  else [EvGetenv "QE_TOKEN"].

Definition loop_reads (env : gmap string string) (items : list (string * string))
  : list Event :=
  items ≫= (λ item, reads_of env item.1).

(** The six recognised names. *)
Definition recognized : list string := VARIABLES_MAP.*1.

(** A read of one of [names]. *)
Definition reads_one_of (names : list string) (e : Event) : Prop :=
  match e with EvGetenv name => name ∈ names end.

(** A variable that is set to a non-empty string. *)
Definition nonempty (v : pyval) : Prop := ∃ s, v = Some s ∧ s ≠ EmptyString.

(** A variable that is missing, or set to the empty string. *)
Definition missing_or_empty (v : pyval) : Prop := v = None ∨ v = Some EmptyString.

(** The value a variable contributes: its content when that is a
    non-empty string, [None] otherwise. *)
Definition given (env : gmap string string) (name : string) : pyval :=
  if truthy (env !! name) then env !! name else None.

Definition credentials_of (env : gmap string string) : Credentials.Credentials :=
  {| Credentials.token := given env "QE_TOKEN";
     Credentials.url := given env "QE_URL";
     Credentials.websocket_url := given env "QE_WEBSOCKET_URL";
     Credentials.hub := given env "QE_HUB";
     Credentials.group := given env "QE_GROUP";
     Credentials.project := given env "QE_PROJECT" |}.

(** How a field follows its variable: [kwarg] is the entry of the field
    in the keyword arguments, [attr] the attribute of the record.  A
    variable set to a non-empty string gives both that value; a variable
    that is absent leaves the entry out, and the attribute is [None]. *)
Definition field_follows_variable (env : gmap string string) (name : string)
    (kwarg : option pyval) (attr : pyval) : Prop :=
  (∀ s, env !! name = Some s → s ≠ EmptyString →
     kwarg = Some (Some s) ∧ attr = Some s)
  ∧ (env !! name = None → kwarg = None ∧ attr = None).

(** Environments of the examples. *)
Definition env_token_url : gmap string string :=
  <["QE_TOKEN" := "abc"]> (<["QE_URL" := "http://x"]> ∅).

Definition env_hub_group_project : gmap string string :=
  <["QE_HUB" := "h"]> (<["QE_GROUP" := "g"]> (<["QE_PROJECT" := "p"]> env_token_url)).

Definition env_token_only : gmap string string :=
  <["QE_TOKEN" := "abc"]> (<["QE_HUB" := "h"]> ∅).

Definition env_foo : gmap string string :=
  <["QE_FOO" := "bar"]> env_token_url.

(** All six recognised variables are set. *)
Definition env_all_six : gmap string string :=
  <["QE_WEBSOCKET_URL" := "wss://w"]> env_hub_group_project.

(** QE_HUB is set, to the empty string. *)
Definition env_empty_hub : gmap string string :=
  <["QE_HUB" := EmptyString]> env_token_url.

(** The URL is set, the token is not. *)
Definition env_url_only : gmap string string :=
  <["QE_URL" := "http://x"]> ∅.

(** A class whose constructor refuses every call, to exercise the path
    on which the constructor raises. *)
Definition refusing : CredentialsAPI :=
  Build_CredentialsAPI unit unit (λ _, inl TypeError) (λ _, tt).

Ltac in_table := apply (bool_decide_unpack _); by vm_compute.

(** * What a run of the loader computes *)

(** Two runs, evaluated: the guard reads the token and the URL, then
    each iteration reads its variable once, and once more to fetch a
    non-empty value. *)
Example run_token_url :
  read_credentials_from_environ (C := Credentials.api) (mkWorld env_token_url [])
  = (inr [((None, None, None),
           {| Credentials.token := Some "abc";
              Credentials.url := Some "http://x";
              Credentials.websocket_url := None;
              Credentials.hub := None;
              Credentials.group := None;
              Credentials.project := None |})],
     mkWorld env_token_url
       [EvGetenv "QE_TOKEN"; EvGetenv "QE_URL";
        EvGetenv "QE_TOKEN"; EvGetenv "QE_TOKEN";
        EvGetenv "QE_URL"; EvGetenv "QE_URL";
        EvGetenv "QE_WEBSOCKET_URL"; EvGetenv "QE_HUB";
        EvGetenv "QE_GROUP"; EvGetenv "QE_PROJECT"]).
Proof. by vm_compute. Qed.

Example run_token_only :
  read_credentials_from_environ (C := Credentials.api) (mkWorld env_token_only [])
  = (inr [], mkWorld env_token_only [EvGetenv "QE_TOKEN"; EvGetenv "QE_URL"]).
Proof. by vm_compute. Qed.

Example run_nothing_set :
  read_credentials_from_environ (C := Credentials.api) (mkWorld ∅ [])
  = (inr [], mkWorld ∅ [EvGetenv "QE_TOKEN"]).
Proof. by vm_compute. Qed.

Lemma logged_nil w : logged [] w = w.
Proof. destruct w. unfold logged. simpl. by rewrite app_nil_r. Qed.

Lemma logged_logged evs evs' w :
  logged evs' (logged evs w) = logged (evs ++ evs') w.
Proof. unfold logged. simpl. by rewrite app_assoc. Qed.

Lemma bind_run {A B} (m : Py A) (k : A → Py B) w :
  (m ≫= k) w = match m w with
                | (inr a, w') => k a w'
                | (inl e, w') => (inl e, w')
                end.
Proof. reflexivity. Qed.

Lemma for_each_cons {A S} (x : A) rest (body : A → S → Py S) s s' w w' :
  body x s w = (inr s', w') →
  for_each (x :: rest) body s w = for_each rest body s' w'.
Proof. intros Hbody. simpl. by rewrite bind_run, Hbody. Qed.

Lemma os_getenv_run name w :
  os_getenv name w = (inr (os_environ w !! name), logged [EvGetenv name] w).
Proof. reflexivity. Qed.

Section LoaderRuns.
Context {C : CredentialsAPI}.

Lemma token_and_url_run w :
  token_and_url w
  = (inr (configured (os_environ w)), logged (guard_reads (os_environ w)) w).
Proof.
  unfold token_and_url, configured, guard_reads.
  rewrite bind_run, os_getenv_run.
  destruct (truthy (os_environ w !! "QE_TOKEN")); [|done].
  rewrite bind_run, os_getenv_run. simpl. by rewrite logged_logged.
Qed.

Lemma collect_run item kw w :
  collect item kw w
  = (inr (selected (os_environ w) kw item),
     logged (reads_of (os_environ w) item.1) w).
Proof.
  destruct item as [n k]. unfold collect, selected, reads_of. simpl.
  rewrite bind_run, os_getenv_run.
  destruct (truthy (os_environ w !! n)); [|done].
  rewrite bind_run, os_getenv_run. simpl. by rewrite logged_logged.
Qed.

Lemma for_each_collect_run items kw w :
  for_each items collect kw w
  = (inr (foldl (selected (os_environ w)) kw items),
     logged (loop_reads (os_environ w) items) w).
Proof.
  revert kw w. induction items as [|item items IH]; intros kw w.
  - simpl. unfold loop_reads. simpl. by rewrite logged_nil.
  - erewrite for_each_cons by apply collect_run.
    rewrite IH. simpl. by rewrite logged_logged.
Qed.

(** The loader, run in [w]. *)
Lemma read_credentials_from_environ_run w :
  read_credentials_from_environ w
  = let env := os_environ w in
    if configured env then
      (match new (keyword_arguments env) with
       | inr c => inr [(unique_id c, c)]
       | inl e => inl e
       end,
       logged (guard_reads env ++ loop_reads env VARIABLES_MAP) w)
    else (inr [], logged (guard_reads env) w).
Proof.
  unfold read_credentials_from_environ.
  rewrite bind_run, token_and_url_run. cbv beta iota zeta.
  destruct (configured (os_environ w)); cbn [negb]; [|done].
  rewrite bind_run, for_each_collect_run. cbv beta iota.
  rewrite bind_run. unfold lift, keyword_arguments. rewrite logged_logged.
  by destruct (new _).
Qed.
End LoaderRuns.

(** ** The keyword arguments *)

Lemma foldl_selected_other env items kw (key : string) :
  key ∉ items.*2 → foldl (selected env) kw items !! key = kw !! key.
Proof.
  revert kw. induction items as [|[n k] items IH]; intros kw Hkey; [done|].
  simpl in *. apply not_elem_of_cons in Hkey as [Hne Hkey].
  rewrite IH by done. unfold selected. simpl.
  destruct (truthy (env !! n)); [|done]. by rewrite lookup_insert_ne.
Qed.

Lemma foldl_selected_lookup env items kw (name key : string) :
  NoDup items.*2 → (name, key) ∈ items →
  foldl (selected env) kw items !! key
  = if truthy (env !! name) then Some (env !! name) else kw !! key.
Proof.
  revert kw. induction items as [|[n k] items IH]; intros kw Hnodup Hin.
  { by apply elem_of_nil in Hin. }
  simpl in *. apply NoDup_cons in Hnodup as [Hfresh Hnodup].
  apply elem_of_cons in Hin as [Heq | Hin].
  - injection Heq as -> ->. rewrite foldl_selected_other by done.
    unfold selected. simpl.
    destruct (truthy (env !! n)); [|done]. by rewrite lookup_insert_eq.
  - assert (key ≠ k) as Hne.
    { intros ->. apply Hfresh. apply list_elem_of_fmap. by exists (name, k). }
    rewrite IH by done. unfold selected. simpl.
    destruct (truthy (env !! name)); [done|].
    destruct (truthy (env !! n)); [|done]. by rewrite lookup_insert_ne.
Qed.

Lemma foldl_selected_ext env1 env2 items kw :
  (∀ name, name ∈ items.*1 → env1 !! name = env2 !! name) →
  foldl (selected env1) kw items = foldl (selected env2) kw items.
Proof.
  revert kw. induction items as [|[n k] items IH]; intros kw Hagree; [done|].
  simpl in *. unfold selected at 2 4. simpl.
  rewrite (Hagree n) by (apply elem_of_cons; by left).
  apply IH. intros name Hname. apply Hagree. apply elem_of_cons; by right.
Qed.

Lemma VARIABLES_MAP_NoDup : NoDup VARIABLES_MAP.*2.
Proof. apply (bool_decide_unpack _). by vm_compute. Qed.

(** A parameter is passed exactly when its variable is set to a
    non-empty string, and then with the value of the variable. *)
Lemma keyword_arguments_lookup env (name key : string) :
  (name, key) ∈ VARIABLES_MAP →
  keyword_arguments env !! key
  = if truthy (env !! name) then Some (env !! name) else None.
Proof.
  intros Hin. unfold keyword_arguments.
  rewrite (foldl_selected_lookup env VARIABLES_MAP ∅ name key)
    by auto using VARIABLES_MAP_NoDup.
  by rewrite lookup_empty.
Qed.

Lemma keyword_arguments_other env (key : string) :
  key ∉ VARIABLES_MAP.*2 → keyword_arguments env !! key = None.
Proof.
  intros Hkey. unfold keyword_arguments.
  by rewrite foldl_selected_other, lookup_empty.
Qed.

Lemma keyword_arguments_ext env1 env2 :
  (∀ name, name ∈ recognized → env1 !! name = env2 !! name) →
  keyword_arguments env1 = keyword_arguments env2.
Proof. apply foldl_selected_ext. Qed.

(** ** The record the constructor builds from them *)

Lemma configured_true env :
  configured env = true ↔
  truthy (env !! "QE_TOKEN") = true ∧ truthy (env !! "QE_URL") = true.
Proof. unfold configured. apply andb_true_iff. Qed.

Lemma given_truthy env name :
  truthy (env !! name) = true → given env name = env !! name.
Proof. intros Hset. unfold given. by rewrite Hset. Qed.

Lemma keyword_arguments_dom env :
  dom (keyword_arguments env) ⊆ Credentials.parameters.
Proof.
  intros key Hkey. apply elem_of_dom in Hkey as [v Hv].
  destruct (decide (key ∈ VARIABLES_MAP.*2)) as [Hin | Hout].
  - simpl in Hin.
    repeat (apply elem_of_cons in Hin as [-> | Hin]; [in_table|]).
    by apply elem_of_nil in Hin.
  - by rewrite keyword_arguments_other in Hv.
Qed.

Lemma optional_keyword_arguments env (name key : string) :
  (name, key) ∈ VARIABLES_MAP →
  Credentials.optional (keyword_arguments env) key = given env name.
Proof.
  intros Hin. unfold Credentials.optional, given.
  rewrite (keyword_arguments_lookup env name key Hin).
  by destruct (truthy (env !! name)).
Qed.

(** With the token and the URL set, the constructor accepts what the
    loader passes. *)
Lemma init_keyword_arguments env :
  configured env = true →
  Credentials.init (keyword_arguments env) = inr (credentials_of env).
Proof.
  intros [Htok Hurl]%configured_true. unfold Credentials.init.
  rewrite bool_decide_eq_true_2 by apply keyword_arguments_dom.
  rewrite (keyword_arguments_lookup env "QE_TOKEN" "token") by in_table.
  rewrite (keyword_arguments_lookup env "QE_URL" "url") by in_table.
  rewrite Htok, Hurl.
  rewrite (optional_keyword_arguments env "QE_WEBSOCKET_URL") by in_table.
  rewrite (optional_keyword_arguments env "QE_HUB") by in_table.
  rewrite (optional_keyword_arguments env "QE_GROUP") by in_table.
  rewrite (optional_keyword_arguments env "QE_PROJECT") by in_table.
  unfold credentials_of.
  by rewrite (given_truthy env "QE_TOKEN" Htok), (given_truthy env "QE_URL" Hurl).
Qed.

(** ** Truth values and the vocabulary of the statements *)

Lemma truthy_nonempty v : truthy v = true ↔ nonempty v.
Proof.
  unfold nonempty. split.
  - destruct v as [[|a s]|]; try done. intros _. by exists (String a s).
  - intros (s & -> & Hs). by destruct s.
Qed.

Lemma truthy_missing_or_empty v : truthy v = false ↔ missing_or_empty v.
Proof.
  unfold missing_or_empty. split.
  - destruct v as [[|a s]|]; try done; auto.
  - by intros [-> | ->].
Qed.

Lemma configured_nonempty env :
  configured env = true ↔
  nonempty (env !! "QE_TOKEN") ∧ nonempty (env !! "QE_URL").
Proof. by rewrite configured_true, !truthy_nonempty. Qed.

Lemma configured_missing env :
  configured env = false ↔
  missing_or_empty (env !! "QE_TOKEN") ∨ missing_or_empty (env !! "QE_URL").
Proof.
  unfold configured. by rewrite andb_false_iff, !truthy_missing_or_empty.
Qed.

Lemma given_nonempty env name s :
  env !! name = Some s → s ≠ EmptyString → given env name = Some s.
Proof. intros Hs Hne. unfold given. rewrite Hs. by destruct s. Qed.

Lemma given_missing env name : env !! name = None → given env name = None.
Proof. intros Hs. unfold given. by rewrite Hs. Qed.

(** A row of the table makes its field follow its variable. *)
Lemma table_row_followed env (name field : string) :
  (name, field) ∈ VARIABLES_MAP →
  field_follows_variable env name
    (keyword_arguments env !! field) (given env name).
Proof.
  intros Hin. rewrite (keyword_arguments_lookup _ name field Hin). split.
  - intros s Hs Hne. rewrite (given_nonempty _ _ s Hs Hne), Hs.
    by destruct s.
  - intros Hnone. rewrite (given_missing _ _ Hnone). by rewrite Hnone.
Qed.

(** ** Results and final worlds of the loader *)

Section LoaderResults.
Context {C : CredentialsAPI}.

Lemma loader_not_configured w :
  configured (os_environ w) = false →
  fst (read_credentials_from_environ w) = inr [].
Proof.
  intros Hconf. rewrite read_credentials_from_environ_run. simpl.
  by rewrite Hconf.
Qed.

(** With the token and the URL set the loader returns what the
    constructor returns, under its [unique_id()], and raises what the
    constructor raises. *)
Lemma loader_configured w :
  configured (os_environ w) = true →
  fst (read_credentials_from_environ w)
  = match new (keyword_arguments (os_environ w)) with
    | inr c => inr [(unique_id c, c)]
    | inl e => inl e
    end.
Proof.
  intros Hconf. rewrite read_credentials_from_environ_run. simpl.
  by rewrite Hconf.
Qed.

Lemma loader_world w :
  snd (read_credentials_from_environ w)
  = logged (guard_reads (os_environ w)
            ++ (if configured (os_environ w)
                then loop_reads (os_environ w) VARIABLES_MAP else [])) w.
Proof.
  rewrite read_credentials_from_environ_run. simpl.
  destruct (configured (os_environ w)); simpl; [done|].
  by rewrite app_nil_r.
Qed.

(** The result is a function of the recognised variables. *)
Lemma loader_ext w1 w2 :
  (∀ name, name ∈ recognized → os_environ w1 !! name = os_environ w2 !! name) →
  fst (read_credentials_from_environ w1) = fst (read_credentials_from_environ w2).
Proof.
  intros Hagree. rewrite !read_credentials_from_environ_run. simpl.
  unfold configured.
  rewrite (Hagree "QE_TOKEN"), (Hagree "QE_URL") by in_table.
  rewrite (keyword_arguments_ext _ _ Hagree).
  by destruct (_ && _).
Qed.
End LoaderResults.

Lemma guard_reads_recognized env :
  Forall (reads_one_of recognized) (guard_reads env).
Proof.
  unfold guard_reads.
  destruct (truthy _); repeat constructor; simpl; in_table.
Qed.

Lemma loop_reads_recognized env items :
  Forall (reads_one_of items.*1) (loop_reads env items).
Proof.
  unfold loop_reads. induction items as [|[n k] items IH]; [constructor|].
  simpl. apply Forall_app. split.
  - unfold reads_of. simpl.
    destruct (truthy _); repeat constructor; simpl; by (apply elem_of_cons; left).
  - eapply Forall_impl; [exact IH|].
    intros [name] Hname. simpl in *. apply elem_of_cons. by right.
Qed.

(** The loader of the modelled [Credentials] class returns an entry
    whenever the token and the URL are set. *)
Lemma loader_credentials w :
  configured (os_environ w) = true →
  fst (read_credentials_from_environ (C := Credentials.api) w)
  = inr [(Credentials.unique_id (credentials_of (os_environ w)),
          credentials_of (os_environ w))].
Proof.
  intros Hconf. rewrite (loader_configured w Hconf). simpl.
  by rewrite (init_keyword_arguments _ Hconf).
Qed.

(** * The loader's contract *)

(** C1: in every environment where QE_TOKEN is missing or empty, or
    QE_URL is missing or empty, the loader returns an empty mapping,
    whatever the [Credentials] class is. *)
Theorem missing_token_or_url_gives_empty {C : CredentialsAPI} (w : World) :
  missing_or_empty (os_environ w !! "QE_TOKEN")
  ∨ missing_or_empty (os_environ w !! "QE_URL") →
  fst (read_credentials_from_environ w) = inr [].
Proof.
  intros Hmissing. apply loader_not_configured.
  by apply configured_missing.
Qed.

Lemma missing_token_or_url_gives_empty_witness :
  (missing_or_empty (env_token_only !! "QE_TOKEN")
   ∨ missing_or_empty (env_token_only !! "QE_URL"))
  ∧ fst (read_credentials_from_environ (C := Credentials.api)
           (mkWorld env_token_only []))
    = inr [].
Proof.
  assert (missing_or_empty (env_token_only !! "QE_TOKEN")
          ∨ missing_or_empty (env_token_only !! "QE_URL")) as Hmissing.
  { right. left. by vm_compute. }
  split; [exact Hmissing|].
  exact (missing_token_or_url_gives_empty (mkWorld env_token_only []) Hmissing).
Defined.

(** C2: with QE_TOKEN set to abc, QE_URL set to http://x and none of the
    four optional variables set, the loader returns a mapping with exactly
    one entry, whose record has the token abc, the URL http://x and no
    websocket URL, hub, group or project. *)
Theorem token_and_url_alone (w : World) :
  os_environ w !! "QE_TOKEN" = Some "abc" →
  os_environ w !! "QE_URL" = Some "http://x" →
  os_environ w !! "QE_WEBSOCKET_URL" = None →
  os_environ w !! "QE_HUB" = None →
  os_environ w !! "QE_GROUP" = None →
  os_environ w !! "QE_PROJECT" = None →
  ∃ key,
    fst (read_credentials_from_environ (C := Credentials.api) w)
    = inr [(key, {| Credentials.token := Some "abc";
                    Credentials.url := Some "http://x";
                    Credentials.websocket_url := None;
                    Credentials.hub := None;
                    Credentials.group := None;
                    Credentials.project := None |})].
Proof.
  intros Htok Hurl Hws Hhub Hgroup Hproject.
  exists (Credentials.unique_id (credentials_of (os_environ w))).
  rewrite loader_credentials.
  - unfold credentials_of, given.
    by rewrite Htok, Hurl, Hws, Hhub, Hgroup, Hproject.
  - unfold configured. by rewrite Htok, Hurl.
Qed.

Lemma token_and_url_alone_witness :
  ∃ key,
    fst (read_credentials_from_environ (C := Credentials.api)
           (mkWorld env_token_url []))
    = inr [(key, {| Credentials.token := Some "abc";
                    Credentials.url := Some "http://x";
                    Credentials.websocket_url := None;
                    Credentials.hub := None;
                    Credentials.group := None;
                    Credentials.project := None |})].
Proof.
  apply (token_and_url_alone (mkWorld env_token_url [])); by vm_compute.
Defined.

(** C3: with QE_TOKEN and QE_URL both non-empty the loader returns a
    mapping with exactly one entry, and in no environment does it return
    a mapping with two or more entries. *)
Theorem exactly_one_entry (w : World) :
  ∃ m,
    fst (read_credentials_from_environ (C := Credentials.api) w) = inr m
    ∧ (List.length m ≤ 1)%nat
    ∧ (nonempty (os_environ w !! "QE_TOKEN") →
       nonempty (os_environ w !! "QE_URL") →
       List.length m = 1).
Proof.
  destruct (configured (os_environ w)) eqn:Hconf.
  - eexists. split; [by apply loader_credentials|]. simpl. auto.
  - exists []. split; [by apply loader_not_configured|].
    split; [simpl; lia|]. intros Htok Hurl.
    assert (configured (os_environ w) = true) as Hyes
      by by apply configured_nonempty.
    congruence.
Qed.

Lemma exactly_one_entry_witness :
  ∃ m,
    fst (read_credentials_from_environ (C := Credentials.api)
           (mkWorld env_hub_group_project []))
    = inr m
    ∧ List.length m = 1.
Proof.
  destruct (exactly_one_entry (mkWorld env_hub_group_project []))
    as (m & Hm & _ & Hone).
  exists m. split; [exact Hm|].
  apply Hone; (eexists; split; [by vm_compute|done]).
Defined.

(** C4: with QE_TOKEN and QE_URL both non-empty, the loop over
    [VARIABLES_MAP] builds the keyword arguments from which the returned
    record is constructed, and each of the six recognised variables
    decides its own field: QE_TOKEN the token, QE_URL the url,
    QE_WEBSOCKET_URL the websocket_url, QE_HUB the hub, QE_GROUP the
    group and QE_PROJECT the project.  A variable set to a non-empty
    string puts its field, with that value, in the keyword arguments and
    in the record; a variable that is absent leaves its field out of the
    keyword arguments, and the record holds no value ([None]) for it. *)
Theorem recognized_variables_fill_the_record (w : World) :
  nonempty (os_environ w !! "QE_TOKEN") →
  nonempty (os_environ w !! "QE_URL") →
  ∃ (kwargs : gmap string pyval) c,
    fst (for_each VARIABLES_MAP collect ∅ w) = inr kwargs
    ∧ Credentials.init kwargs = inr c
    ∧ fst (read_credentials_from_environ (C := Credentials.api) w)
      = inr [(Credentials.unique_id c, c)]
    ∧ field_follows_variable (os_environ w) "QE_TOKEN"
        (kwargs !! "token") (Credentials.token c)
    ∧ field_follows_variable (os_environ w) "QE_URL"
        (kwargs !! "url") (Credentials.url c)
    ∧ field_follows_variable (os_environ w) "QE_WEBSOCKET_URL"
        (kwargs !! "websocket_url") (Credentials.websocket_url c)
    ∧ field_follows_variable (os_environ w) "QE_HUB"
        (kwargs !! "hub") (Credentials.hub c)
    ∧ field_follows_variable (os_environ w) "QE_GROUP"
        (kwargs !! "group") (Credentials.group c)
    ∧ field_follows_variable (os_environ w) "QE_PROJECT"
        (kwargs !! "project") (Credentials.project c).
Proof.
  intros Htok Hurl.
  assert (configured (os_environ w) = true) as Hconf
    by by apply configured_nonempty.
  exists (keyword_arguments (os_environ w)), (credentials_of (os_environ w)).
  split; [by rewrite for_each_collect_run|].
  split; [by apply init_keyword_arguments|].
  split; [by apply loader_credentials|].
  unfold credentials_of. simpl.
  do 5 (split; [apply table_row_followed; in_table|]).
  apply table_row_followed; in_table.
Qed.

(** In an environment that sets all six variables every field holds the
    value of its own variable; in one that sets the token and the URL
    alone the four optional fields are left out. *)
Lemma recognized_variables_fill_the_record_witness :
  (∃ (kwargs : gmap string pyval) c,
     fst (read_credentials_from_environ (C := Credentials.api)
            (mkWorld env_all_six []))
     = inr [(Credentials.unique_id c, c)]
     ∧ (kwargs !! "token" = Some (Some "abc")
        ∧ Credentials.token c = Some "abc")
     ∧ (kwargs !! "url" = Some (Some "http://x")
        ∧ Credentials.url c = Some "http://x")
     ∧ (kwargs !! "websocket_url" = Some (Some "wss://w")
        ∧ Credentials.websocket_url c = Some "wss://w")
     ∧ (kwargs !! "hub" = Some (Some "h") ∧ Credentials.hub c = Some "h")
     ∧ (kwargs !! "group" = Some (Some "g")
        ∧ Credentials.group c = Some "g")
     ∧ (kwargs !! "project" = Some (Some "p")
        ∧ Credentials.project c = Some "p"))
  ∧ (∃ (kwargs : gmap string pyval) c,
       fst (read_credentials_from_environ (C := Credentials.api)
              (mkWorld env_token_url []))
       = inr [(Credentials.unique_id c, c)]
       ∧ (kwargs !! "websocket_url" = None
          ∧ Credentials.websocket_url c = None)
       ∧ (kwargs !! "hub" = None ∧ Credentials.hub c = None)
       ∧ (kwargs !! "group" = None ∧ Credentials.group c = None)
       ∧ (kwargs !! "project" = None ∧ Credentials.project c = None)).
Proof.
  split.
  - destruct (recognized_variables_fill_the_record (mkWorld env_all_six []))
      as (kwargs & c & _ & _ & Hload
          & [Htok _] & [Hurl _] & [Hws _] & [Hhub _] & [Hgroup _]
          & [Hproject _]).
    + eexists. split; [by vm_compute|done].
    + eexists. split; [by vm_compute|done].
    + exists kwargs, c. split; [exact Hload|].
      split; [apply Htok; [by vm_compute|done]|].
      split; [apply Hurl; [by vm_compute|done]|].
      split; [apply Hws; [by vm_compute|done]|].
      split; [apply Hhub; [by vm_compute|done]|].
      split; [apply Hgroup; [by vm_compute|done]|].
      apply Hproject; [by vm_compute|done].
  - destruct (recognized_variables_fill_the_record (mkWorld env_token_url []))
      as (kwargs & c & _ & _ & Hload
          & _ & _ & [_ Hws] & [_ Hhub] & [_ Hgroup] & [_ Hproject]).
    + eexists. split; [by vm_compute|done].
    + eexists. split; [by vm_compute|done].
    + exists kwargs, c. split; [exact Hload|].
      split; [apply Hws; by vm_compute|].
      split; [apply Hhub; by vm_compute|].
      split; [apply Hgroup; by vm_compute|].
      apply Hproject; by vm_compute.
Defined.

(** C5: starting from an environment with only QE_TOKEN set to abc and
    QE_URL set to http://x, setting QE_HUB to h, QE_GROUP to g and
    QE_PROJECT to p changes the key of the returned mapping and fills
    the hub, group and project of the record, whose token and URL stay
    abc and http://x. *)
Theorem hub_group_project_change_the_key (w w' : World) :
  os_environ w !! "QE_TOKEN" = Some "abc" →
  os_environ w !! "QE_URL" = Some "http://x" →
  os_environ w !! "QE_WEBSOCKET_URL" = None →
  os_environ w !! "QE_HUB" = None →
  os_environ w !! "QE_GROUP" = None →
  os_environ w !! "QE_PROJECT" = None →
  os_environ w'
  = <["QE_HUB" := "h"]> (<["QE_GROUP" := "g"]>
      (<["QE_PROJECT" := "p"]> (os_environ w))) →
  ∃ key c key' c',
    fst (read_credentials_from_environ (C := Credentials.api) w)
    = inr [(key, c)]
    ∧ fst (read_credentials_from_environ (C := Credentials.api) w')
      = inr [(key', c')]
    ∧ key' ≠ key
    ∧ Credentials.hub c' = Some "h"
    ∧ Credentials.group c' = Some "g"
    ∧ Credentials.project c' = Some "p"
    ∧ Credentials.token c = Some "abc" ∧ Credentials.token c' = Some "abc"
    ∧ Credentials.url c = Some "http://x"
    ∧ Credentials.url c' = Some "http://x".
Proof.
  intros Htok Hurl Hws Hhub Hgroup Hproject Henv'.
  assert (os_environ w' !! "QE_TOKEN" = Some "abc") as Htok'.
  { rewrite Henv'. by rewrite !lookup_insert_ne. }
  assert (os_environ w' !! "QE_URL" = Some "http://x") as Hurl'.
  { rewrite Henv'. by rewrite !lookup_insert_ne. }
  assert (os_environ w' !! "QE_HUB" = Some "h") as Hhub'.
  { rewrite Henv'. by rewrite lookup_insert_eq. }
  assert (os_environ w' !! "QE_GROUP" = Some "g") as Hgroup'.
  { rewrite Henv'. rewrite lookup_insert_ne by done.
    by rewrite lookup_insert_eq. }
  assert (os_environ w' !! "QE_PROJECT" = Some "p") as Hproject'.
  { rewrite Henv'. rewrite !lookup_insert_ne by done.
    by rewrite lookup_insert_eq. }
  eexists _, _, _, _.
  split; [apply loader_credentials; unfold configured; by rewrite Htok, Hurl|].
  split; [apply loader_credentials; unfold configured; by rewrite Htok', Hurl'|].
  unfold Credentials.unique_id, credentials_of, given. simpl.
  rewrite Htok, Hurl, Hhub, Hgroup, Hproject.
  rewrite Htok', Hurl', Hhub', Hgroup', Hproject'. simpl.
  repeat split; done.
Qed.

Lemma hub_group_project_change_the_key_witness :
  ∃ key c key' c',
    fst (read_credentials_from_environ (C := Credentials.api)
           (mkWorld env_token_url []))
    = inr [(key, c)]
    ∧ fst (read_credentials_from_environ (C := Credentials.api)
             (mkWorld env_hub_group_project []))
      = inr [(key', c')]
    ∧ key' ≠ key
    ∧ Credentials.hub c' = Some "h"
    ∧ Credentials.group c' = Some "g"
    ∧ Credentials.project c' = Some "p"
    ∧ Credentials.token c = Some "abc" ∧ Credentials.token c' = Some "abc"
    ∧ Credentials.url c = Some "http://x"
    ∧ Credentials.url c' = Some "http://x".
Proof.
  apply (hub_group_project_change_the_key
           (mkWorld env_token_url []) (mkWorld env_hub_group_project []));
    by vm_compute.
Defined.

(** C6: the loader invoked a second time, in the world the first
    invocation left, yields the same result: the same keys and equal
    records, in every environment and for every [Credentials] class. *)
Theorem second_invocation_agrees {C : CredentialsAPI} (w : World) :
  fst (read_credentials_from_environ (snd (read_credentials_from_environ w)))
  = fst (read_credentials_from_environ w).
Proof.
  apply loader_ext. intros name _. by rewrite loader_world.
Qed.

(** C7: two environments that agree on QE_TOKEN, QE_URL,
    QE_WEBSOCKET_URL, QE_HUB, QE_GROUP and QE_PROJECT give equal
    results, whatever other variables they hold. *)
Theorem other_variables_are_ignored {C : CredentialsAPI} (w1 w2 : World) :
  os_environ w1 !! "QE_TOKEN" = os_environ w2 !! "QE_TOKEN" →
  os_environ w1 !! "QE_URL" = os_environ w2 !! "QE_URL" →
  os_environ w1 !! "QE_WEBSOCKET_URL" = os_environ w2 !! "QE_WEBSOCKET_URL" →
  os_environ w1 !! "QE_HUB" = os_environ w2 !! "QE_HUB" →
  os_environ w1 !! "QE_GROUP" = os_environ w2 !! "QE_GROUP" →
  os_environ w1 !! "QE_PROJECT" = os_environ w2 !! "QE_PROJECT" →
  fst (read_credentials_from_environ w1)
  = fst (read_credentials_from_environ w2).
Proof.
  intros Htok Hurl Hws Hhub Hgroup Hproject.
  apply loader_ext. intros name Hname. unfold recognized in Hname.
  simpl in Hname.
  repeat (apply elem_of_cons in Hname as [-> | Hname]; [done|]).
  by apply elem_of_nil in Hname.
Qed.

Lemma other_variables_are_ignored_witness :
  env_foo !! "QE_FOO" ≠ env_token_url !! "QE_FOO"
  ∧ fst (read_credentials_from_environ (C := Credentials.api)
           (mkWorld env_foo []))
    = fst (read_credentials_from_environ (C := Credentials.api)
             (mkWorld env_token_url [])).
Proof.
  split; [by vm_compute|].
  apply (other_variables_are_ignored
           (mkWorld env_foo []) (mkWorld env_token_url []));
    by vm_compute.
Defined.

(** C8: a call leaves the environment as it found it, and all it does
    meanwhile is to read recognised variables with [os.getenv]. *)
Theorem environment_is_only_read {C : CredentialsAPI} (w : World) :
  os_environ (snd (read_credentials_from_environ w)) = os_environ w
  ∧ ∃ reads : list Event,
      trace (snd (read_credentials_from_environ w)) = (trace w ++ reads)%list
      ∧ Forall (reads_one_of recognized) reads.
Proof.
  rewrite loader_world. split; [done|]. eexists. split; [done|].
  apply Forall_app. split; [apply guard_reads_recognized|].
  destruct (configured _); [apply loop_reads_recognized | constructor].
Qed.

(** C9: the loader never raises.  In every environment it returns an
    empty mapping or a mapping with one entry, and the empty one whenever
    the token or the URL is missing or empty. *)
Theorem loader_never_raises (w : World) :
  ∃ m,
    fst (read_credentials_from_environ (C := Credentials.api) w) = inr m
    ∧ (m = [] ∨ ∃ key c, m = [(key, c)])
    ∧ (missing_or_empty (os_environ w !! "QE_TOKEN")
       ∨ missing_or_empty (os_environ w !! "QE_URL") →
       m = []).
Proof.
  destruct (configured (os_environ w)) eqn:Hconf.
  - eexists. split; [by apply loader_credentials|].
    split; [right; by eexists _, _|].
    intros Hmissing%configured_missing. congruence.
  - exists []. split; [by apply loader_not_configured|]. auto.
Qed.

Lemma loader_never_raises_witness :
  ∃ m,
    fst (read_credentials_from_environ (C := Credentials.api)
           (mkWorld env_token_only []))
    = inr m
    ∧ m = [].
Proof.
  destruct (loader_never_raises (mkWorld env_token_only []))
    as (m & Hm & _ & Hempty).
  exists m. split; [exact Hm|].
  apply Hempty. right. left. by vm_compute.
Defined.

(** C10: with QE_TOKEN and QE_URL both non-empty, a mapping the loader
    returns has a single entry, and its key is the [unique_id()] of the
    record stored under it, whatever the [Credentials] class is. *)
Theorem key_is_unique_id_of_record {C : CredentialsAPI} (w : World) m :
  nonempty (os_environ w !! "QE_TOKEN") →
  nonempty (os_environ w !! "QE_URL") →
  fst (read_credentials_from_environ w) = inr m →
  ∃ c, m = [(unique_id c, c)].
Proof.
  intros Htok Hurl.
  rewrite loader_configured by by apply configured_nonempty.
  destruct (new _) as [e | c]; [done|].
  intros [= <-]. by exists c.
Qed.

Lemma key_is_unique_id_of_record_witness :
  ∃ c,
    fst (read_credentials_from_environ (C := Credentials.api)
           (mkWorld env_hub_group_project []))
    = inr [(Credentials.unique_id c, c)].
Proof.
  destruct (key_is_unique_id_of_record (C := Credentials.api)
              (mkWorld env_hub_group_project [])
              [(Credentials.unique_id (credentials_of env_hub_group_project),
                credentials_of env_hub_group_project)])
    as [c Hc].
  - eexists. split; [by vm_compute|done].
  - eexists. split; [by vm_compute|done].
  - by vm_compute.
  - exists c.
    assert (credentials_of env_hub_group_project = c) as <- by congruence.
    by vm_compute.
Defined.

(** * Further properties of the loader *)

(** ** Empty values *)

Lemma truthy_given env name : truthy (given env name) = truthy (env !! name).
Proof. unfold given. by destruct (truthy (env !! name)) eqn:Hset. Qed.

Lemma selected_given env kw item :
  selected env kw item
  = if truthy (given env item.1) then <[item.2 := given env item.1]> kw else kw.
Proof.
  unfold selected. rewrite truthy_given.
  destruct (truthy (env !! item.1)) eqn:Hset; [|done].
  by rewrite given_truthy.
Qed.

Lemma foldl_selected_ext_given env1 env2 items kw :
  (∀ name, name ∈ items.*1 → given env1 name = given env2 name) →
  foldl (selected env1) kw items = foldl (selected env2) kw items.
Proof.
  revert kw. induction items as [|[n k] items IH]; intros kw Hagree; [done|].
  simpl in *. rewrite (selected_given env1), (selected_given env2). simpl.
  rewrite (Hagree n) by (apply elem_of_cons; by left).
  apply IH. intros name Hname. apply Hagree. apply elem_of_cons. by right.
Qed.

(** The result is a function of the non-empty values of the recognised
    variables. *)
Lemma loader_ext_given {C : CredentialsAPI} w1 w2 :
  (∀ name, name ∈ recognized →
     given (os_environ w1) name = given (os_environ w2) name) →
  fst (read_credentials_from_environ w1) = fst (read_credentials_from_environ w2).
Proof.
  intros Hagree. rewrite !read_credentials_from_environ_run. simpl.
  unfold configured, keyword_arguments.
  rewrite <- !(truthy_given (os_environ w1)).
  rewrite (Hagree "QE_TOKEN"), (Hagree "QE_URL") by in_table.
  rewrite !truthy_given.
  rewrite (foldl_selected_ext_given _ _ _ _ Hagree).
  by destruct (_ && _).
Qed.

(** X1: a recognised variable that is set to the empty string is treated
    as an absent one: the loop leaves its field out of the keyword
    arguments. *)
Theorem empty_variable_is_left_out (w : World) (name field : string) :
  (name, field) ∈ VARIABLES_MAP →
  os_environ w !! name = Some EmptyString →
  ∃ kwargs : gmap string pyval,
    fst (for_each VARIABLES_MAP collect ∅ w) = inr kwargs
    ∧ kwargs !! field = None.
Proof.
  intros Hin Hempty. exists (keyword_arguments (os_environ w)).
  split; [by rewrite for_each_collect_run|].
  rewrite (keyword_arguments_lookup _ name field Hin). by rewrite Hempty.
Qed.

Lemma empty_variable_is_left_out_witness :
  ∃ kwargs : gmap string pyval,
    fst (for_each VARIABLES_MAP collect ∅ (mkWorld env_empty_hub []))
    = inr kwargs
    ∧ kwargs !! "hub" = None.
Proof.
  apply (empty_variable_is_left_out (mkWorld env_empty_hub []) "QE_HUB" "hub");
    [in_table | by vm_compute].
Defined.

(** X2: whatever the environment, every keyword argument the loop builds
    is a field of [VARIABLES_MAP], and its value is the non-empty string
    its variable holds: the constructor is never handed [None], an empty
    string, or a keyword outside the table. *)
Theorem keyword_arguments_are_nonempty_strings (w : World) :
  ∃ kwargs : gmap string pyval,
    fst (for_each VARIABLES_MAP collect ∅ w) = inr kwargs
    ∧ ∀ field v, kwargs !! field = Some v →
        ∃ name s, (name, field) ∈ VARIABLES_MAP
                  ∧ os_environ w !! name = Some s
                  ∧ s ≠ EmptyString
                  ∧ v = Some s.
Proof.
  exists (keyword_arguments (os_environ w)).
  split; [by rewrite for_each_collect_run|].
  intros field v Hv.
  destruct (decide (field ∈ VARIABLES_MAP.*2)) as [Hin | Hout].
  - apply list_elem_of_fmap in Hin as ([name field'] & -> & Hin). simpl in Hv.
    rewrite (keyword_arguments_lookup _ name field' Hin) in Hv.
    destruct (truthy (os_environ w !! name)) eqn:Hset; [|done].
    apply truthy_nonempty in Hset as (s & Hs & Hne).
    exists name, s. repeat split; [done..|]. congruence.
  - by rewrite keyword_arguments_other in Hv.
Qed.

(** ** The guard *)

(** X3: when QE_TOKEN is missing or empty the loader returns the empty
    mapping after a single call of [os.getenv]: QE_URL is not read, nor
    is any other variable. *)
Theorem missing_token_reads_nothing_else {C : CredentialsAPI} (w : World) :
  missing_or_empty (os_environ w !! "QE_TOKEN") →
  read_credentials_from_environ w
  = (inr [], mkWorld (os_environ w) (trace w ++ [EvGetenv "QE_TOKEN"])).
Proof.
  intros Htok%truthy_missing_or_empty.
  rewrite read_credentials_from_environ_run. simpl.
  unfold configured, guard_reads. by rewrite Htok.
Qed.

Lemma missing_token_reads_nothing_else_witness :
  env_url_only !! "QE_URL" = Some "http://x"
  ∧ read_credentials_from_environ (C := Credentials.api) (mkWorld env_url_only [])
    = (inr [], mkWorld env_url_only [EvGetenv "QE_TOKEN"]).
Proof.
  split; [by vm_compute|].
  apply (missing_token_reads_nothing_else (mkWorld env_url_only [])).
  left. by vm_compute.
Defined.

(** X4: the loader returns the empty mapping exactly when QE_TOKEN or
    QE_URL is missing or empty, whatever the [Credentials] class is: the
    optional variables have no part in it. *)
Theorem empty_mapping_iff_token_or_url_missing {C : CredentialsAPI} (w : World) :
  fst (read_credentials_from_environ w) = inr []
  ↔ missing_or_empty (os_environ w !! "QE_TOKEN")
    ∨ missing_or_empty (os_environ w !! "QE_URL").
Proof.
  rewrite <- configured_missing. split.
  - destruct (configured (os_environ w)) eqn:Hconf; [|done].
    rewrite (loader_configured w Hconf). by destruct (new _).
  - apply loader_not_configured.
Qed.

(** X5: unsetting a variable that was set to the empty string does not
    change the result, for any variable and any [Credentials] class. *)
Theorem unsetting_an_empty_variable {C : CredentialsAPI} (w w' : World)
    (name : string) :
  os_environ w !! name = Some EmptyString →
  os_environ w' = delete name (os_environ w) →
  fst (read_credentials_from_environ w')
  = fst (read_credentials_from_environ w).
Proof.
  intros Hempty Henv'. apply loader_ext_given. intros name' _.
  rewrite Henv'. unfold given.
  destruct (decide (name' = name)) as [-> | Hne].
  - by rewrite lookup_delete_eq, Hempty.
  - by rewrite lookup_delete_ne.
Qed.

Lemma unsetting_an_empty_variable_witness :
  env_empty_hub !! "QE_HUB" ≠ env_token_url !! "QE_HUB"
  ∧ fst (read_credentials_from_environ (C := Credentials.api)
           (mkWorld env_token_url []))
    = fst (read_credentials_from_environ (C := Credentials.api)
             (mkWorld env_empty_hub [])).
Proof.
  split; [by vm_compute|].
  apply (unsetting_an_empty_variable
           (mkWorld env_empty_hub []) (mkWorld env_token_url []) "QE_HUB");
    by vm_compute.
Defined.

(** ** The constructor *)

(** X6: the loader handles no exception: with QE_TOKEN and QE_URL both
    non-empty, when the constructor raises on the keyword arguments the
    loop built, the loader raises the same exception, and the
    environment is as it was. *)
Theorem constructor_exception_propagates {C : CredentialsAPI} (w : World)
    (kwargs : gmap string pyval) (e : exn) :
  nonempty (os_environ w !! "QE_TOKEN") →
  nonempty (os_environ w !! "QE_URL") →
  fst (for_each VARIABLES_MAP collect ∅ w) = inr kwargs →
  new kwargs = inl e →
  fst (read_credentials_from_environ w) = inl e
  ∧ os_environ (snd (read_credentials_from_environ w)) = os_environ w.
Proof.
  intros Htok Hurl Hloop Hnew.
  rewrite for_each_collect_run in Hloop.
  assert (kwargs = keyword_arguments (os_environ w)) as ->.
  { assert (@inr exn _ (keyword_arguments (os_environ w)) = inr kwargs)
      as Hkw by exact Hloop.
    congruence. }
  split.
  - rewrite loader_configured by by apply configured_nonempty.
    by rewrite Hnew.
  - by rewrite loader_world.
Qed.

Lemma constructor_exception_propagates_witness :
  fst (read_credentials_from_environ (C := refusing) (mkWorld env_token_url []))
  = inl TypeError
  ∧ os_environ (snd (read_credentials_from_environ (C := refusing)
                       (mkWorld env_token_url [])))
    = env_token_url.
Proof.
  apply (constructor_exception_propagates (C := refusing)
           (mkWorld env_token_url [])
           (fold_right (λ kv, <[kv.1 := kv.2]>) ∅
              [("token", Some "abc"); ("url", Some "http://x")])
           TypeError).
  - eexists. split; [by vm_compute|done].
  - eexists. split; [by vm_compute|done].
  - by vm_compute.
  - done.
Defined.

(** ** One variable, one field *)

(** X7: a variable feeds its own field only: setting a variable, to any
    value, leaves the keyword arguments of the fields of all other
    variables as they were. *)
Theorem setting_a_variable_leaves_other_fields (w w' : World)
    (name value : string) :
  os_environ w' = <[name := value]> (os_environ w) →
  ∃ kwargs kwargs' : gmap string pyval,
    fst (for_each VARIABLES_MAP collect ∅ w) = inr kwargs
    ∧ fst (for_each VARIABLES_MAP collect ∅ w') = inr kwargs'
    ∧ ∀ name' field', (name', field') ∈ VARIABLES_MAP → name' ≠ name →
        kwargs' !! field' = kwargs !! field'.
Proof.
  intros Henv'.
  exists (keyword_arguments (os_environ w)), (keyword_arguments (os_environ w')).
  split; [by rewrite for_each_collect_run|].
  split; [by rewrite for_each_collect_run|].
  intros name' field' Hin Hne.
  rewrite !(keyword_arguments_lookup _ name' field' Hin).
  rewrite Henv'. by rewrite lookup_insert_ne.
Qed.

Lemma setting_a_variable_leaves_other_fields_witness :
  ∃ kwargs kwargs' : gmap string pyval,
    fst (for_each VARIABLES_MAP collect ∅ (mkWorld env_token_url []))
    = inr kwargs
    ∧ fst (for_each VARIABLES_MAP collect ∅
             (mkWorld (<["QE_GROUP" := "g"]> env_token_url) []))
      = inr kwargs'
    ∧ kwargs' !! "token" = kwargs !! "token"
    ∧ kwargs' !! "hub" = kwargs !! "hub".
Proof.
  destruct (setting_a_variable_leaves_other_fields
              (mkWorld env_token_url [])
              (mkWorld (<["QE_GROUP" := "g"]> env_token_url) [])
              "QE_GROUP" "g" eq_refl)
    as (kwargs & kwargs' & Hkw & Hkw' & Hframe).
  exists kwargs, kwargs'. repeat split; [exact Hkw | exact Hkw' | |].
  - apply (Hframe "QE_TOKEN" "token"); [in_table | done].
  - apply (Hframe "QE_HUB" "hub"); [in_table | done].
Defined.
